(** * RpcMessageSubject (packages/rpc/src/client/message-subject.ts)

    Shallow embedding of the client-side correlated call handle of the
    Deepkit RPC client.  The object's mutable fields become a record, every
    method becomes a state transformer, and the callbacks the methods
    install (closures in TypeScript) become first-order tags that an
    interpreter [callListener] runs.  Promises created by [asyncOperation]
    live in a promise table of the state, indexed by creation order; the
    calls the handle makes to its collaborators ([release], [continuation],
    the rejection callback, user reply callbacks) and the exceptions that
    escape [next] are recorded in a trace (most recent event first). *)

From stdpp Require Import base list gmap.
From Stdlib Require Import ZArith.
Open Scope Z_scope.

(** ** Messages and errors (collaborators from ../protocol.js, ../model.js) *)

(** Errors that can surface from the handle.  [Opaque n] stands for any
    error value produced by a collaborator (the error carried by an error
    reply, a body-parse error, a transport error passed to [disconnect]). *)
Inductive RpcErr :=
| ConnectionClosed                          (* new RpcError('Connection closed') *)
| UnexpectedMessageType (expected actual : Z)
| Opaque (n : nat).

Definition Schema := nat.

(** Result of [next.parseBody(schema)]: a body, or an exception. *)
Inductive Parsed :=
| PBody (b : nat)
| PThrow (e : RpcErr).

(** An incoming reply: its type tag, [isError()]/[getError()] (Some e when
    the reply is error-tagged, carrying e), and [parseBody]. *)
Record RpcMessage := mkMsg {
  mtype : Z;
  merror : option RpcErr;
  mparse : Schema -> Parsed
}.

Definition isError (m : RpcMessage) : bool :=
  match merror m with Some _ => true | None => false end.

(** [RpcTypes.Ack], the first member of the [RpcTypes] enum. *)
Definition RpcTypes_Ack : Z := 0.

(** ** Promises (settled at most once, as JavaScript promises are) *)

Inductive Value :=
| VUndefined
| VMsg (m : RpcMessage)
| VBody (b : nat).

Inductive PState :=
| Pending
| Resolved (v : Value)
| Rejected (e : RpcErr).

(** ** Callbacks that the handle stores *)

(** Values of the [onReplyCallback] field.  [LCatch] is the prototype
    method [onReplyCallback] (and its bound copy [catchOnReplyCallback]),
    which buffers the reply; [LNoop] is [noop]; [LUser k throws] is a
    callback [k] handed to [onReply] by a collaborator, [throws m] being the
    exception it throws on reply [m] (None when it returns normally); the
    other four are the closures
    installed by the accessors, [p] being the promise they settle. *)
Inductive Listener :=
| LCatch
| LNoop
| LUser (k : nat) (throws : RpcMessage -> option RpcErr)
| LAck (p : nat)
| LWaitMsg (p : nat)
| LWaitNext (p : nat) (type : Z) (schema : option Schema)
| LFirst (p : nat) (type : Z) (schema : option Schema).

(** Values of the [rejected] field: the [reject] of an accessor's promise,
    or a callback handed to [onRejected]. *)
Inductive Rejecter :=
| RPromise (p : nat)
| RUser (k : nat).

(** Observable calls made by the handle. *)
Inductive Event :=
| ERelease                                  (* this.release() *)
| ESend (type : Z)                          (* this.continuation(type, ...) *)
| EUserReply (k : nat) (m : RpcMessage)     (* a user reply callback ran *)
| ERejectedCall (r : Rejecter) (e : RpcErr) (* this.rejected(e) *)
| EThrow (e : RpcErr).                      (* exception escaped next() *)

Record Subject := mkSubject {
  uncatchedNext : option RpcMessage;
  onReplyCallback : Listener;
  rejected : option Rejecter;
  promises : list PState;
  trace : list Event
}.

(** A freshly constructed subject. *)
Definition init : Subject := mkSubject None LCatch None [] [].

Definition set_uncatched (o : option RpcMessage) (s : Subject) : Subject :=
  mkSubject o (onReplyCallback s) (rejected s) (promises s) (trace s).
Definition set_listener (l : Listener) (s : Subject) : Subject :=
  mkSubject (uncatchedNext s) l (rejected s) (promises s) (trace s).
Definition set_rejected (r : option Rejecter) (s : Subject) : Subject :=
  mkSubject (uncatchedNext s) (onReplyCallback s) r (promises s) (trace s).
Definition set_promises (ps : list PState) (s : Subject) : Subject :=
  mkSubject (uncatchedNext s) (onReplyCallback s) (rejected s) ps (trace s).
Definition emit (e : Event) (s : Subject) : Subject :=
  mkSubject (uncatchedNext s) (onReplyCallback s) (rejected s) (promises s) (e :: trace s).

(** [release()] *)
Definition release (s : Subject) : Subject := emit ERelease s.

(** Settling promise [p]: only a pending promise changes. *)
Definition settle (p : nat) (r : PState) (s : Subject) : Subject :=
  match promises s !! p with
  | Some Pending => set_promises (<[p := r]> (promises s)) s
  | _ => s
  end.

Definition resolve (p : nat) (v : Value) := settle p (Resolved v).
Definition reject (p : nat) (e : RpcErr) := settle p (Rejected e).

(** Running a reply callback on [next]: the new state and, when the callback
    throws, the exception (None when it returns normally). *)
Definition callListener (l : Listener) (next : RpcMessage) (s : Subject)
  : Subject * option RpcErr :=
  match l with
  | LCatch => (set_uncatched (Some next) s, None)
  | LNoop => (s, None)
  | LUser k throws => (emit (EUserReply k next) s, throws next)
  | LAck p =>
      let s := set_rejected None (release (set_listener LCatch s)) in
      if Z.eqb (mtype next) RpcTypes_Ack then (resolve p VUndefined s, None)
      else match merror next with
           | Some e => (reject p e s, None)
           | None => (reject p (UnexpectedMessageType RpcTypes_Ack (mtype next)) s, None)
           end
  | LWaitMsg p =>
      let s := set_listener LCatch s in
      (resolve p (VMsg next) s, None)
  | LWaitNext p type schema =>
      let s := set_listener LCatch s in
      if Z.eqb (mtype next) type then
        match schema with
        | None => (resolve p VUndefined s, None)
        | Some sc =>
            match mparse next sc with
            | PBody b => (resolve p (VBody b) s, None)
            | PThrow e => (s, Some e)   (* no try/catch around parseBody *)
            end
        end
      else match merror next with
           | Some e => (reject p e (release s), None)
           | None => (reject p (UnexpectedMessageType type (mtype next)) s, None)
           end
  | LFirst p type schema =>
      let s := release (set_listener LCatch s) in
      if Z.eqb (mtype next) type then
        match schema with
        | None => (resolve p (VMsg next) s, None)
        | Some sc =>
            match mparse next sc with
            | PBody b => (resolve p (VBody b) s, None)
            | PThrow e => (reject p e s, None)   (* catch (error) { reject(error) } *)
            end
        end
      else match merror next with
           | Some e => (reject p e (release s), None)
           | None => (reject p (UnexpectedMessageType type (mtype next)) s, None)
           end
  end.

(** [next(next)]: runs the current callback; an exception it throws
    propagates to the caller of [next] (recorded as [EThrow]). *)
Definition next (m : RpcMessage) (s : Subject) : Subject :=
  match callListener (onReplyCallback s) m s with
  | (s', None) => s'
  | (s', Some e) => emit (EThrow e) s'
  end.

(** [onReply(callback)]: installs the callback and replays the buffered
    reply.  An exception of the callback leaves [onReply] before the
    buffer is cleared. *)
Definition onReply (l : Listener) (s : Subject) : Subject * option RpcErr :=
  let s := set_listener l s in
  match uncatchedNext s with
  | None => (s, None)
  | Some m =>
      match callListener l m s with
      | (s', None) => (set_uncatched None s', None)
      | (s', Some e) => (s', Some e)
      end
  end.

(** [onRejected(callback)] *)
Definition onRejected (k : nat) (s : Subject) : Subject :=
  set_rejected (Some (RUser k)) s.

(** [disconnect(error?)] *)
Definition disconnect (error : option RpcErr) (s : Subject) : Subject :=
  let s :=
    match rejected s with
    | Some r =>
        let e := match error with Some e => e | None => ConnectionClosed end in
        let s := emit (ERejectedCall r e) s in
        let s := match r with RPromise p => reject p e s | RUser _ => s end in
        set_rejected None s
    | None => s
    end in
  release (set_listener LNoop s).

(** [send(type, body, schema)] *)
Definition send (type : Z) (s : Subject) : Subject := emit (ESend type) s.

(** [asyncOperation(executor)] for the four accessors: a new pending
    promise [p], then the executor [this.rejected = reject;
    this.onReply(listener p)]; an exception thrown synchronously by the
    executor rejects the promise. *)
Definition accessor (mk : nat -> Listener) (s : Subject) : Subject :=
  let p := length (promises s) in
  let s := set_promises (promises s ++ [Pending]) s in
  let s := set_rejected (Some (RPromise p)) s in
  match onReply (mk p) s with
  | (s', None) => s'
  | (s', Some e) => reject p e s'
  end.

Definition ackThenClose := accessor LAck.
Definition waitNextMessage := accessor LWaitMsg.
Definition waitNext (type : Z) (schema : option Schema) :=
  accessor (fun p => LWaitNext p type schema).
Definition firstThenClose (type : Z) (schema : option Schema) :=
  accessor (fun p => LFirst p type schema).

(** ** Operations on a handle, and runs of them *)

Inductive Op :=
| OSend (type : Z)
| ONext (m : RpcMessage)
| ODisconnect (error : option RpcErr)
| OOnRejected (k : nat)
| OOnReply (k : nat) (throws : RpcMessage -> option RpcErr)
| OAckThenClose
| OWaitNextMessage
| OWaitNext (type : Z) (schema : option Schema)
| OFirstThenClose (type : Z) (schema : option Schema).

Definition step (o : Op) (s : Subject) : Subject :=
  match o with
  | OSend t => send t s
  | ONext m => next m s
  | ODisconnect e => disconnect e s
  | OOnRejected k => onRejected k s
  | OOnReply k throws =>
      match onReply (LUser k throws) s with
      | (s', None) => s'
      | (s', Some e) => emit (EThrow e) s'
      end
  | OAckThenClose => ackThenClose s
  | OWaitNextMessage => waitNextMessage s
  | OWaitNext t sc => waitNext t sc s
  | OFirstThenClose t sc => firstThenClose t sc s
  end.

Fixpoint run (os : list Op) (s : Subject) : Subject :=
  match os with
  | [] => s
  | o :: os => run os (step o s)
  end.

Definition is_release (e : Event) : bool :=
  match e with ERelease => true | _ => false end.

(** Number of [release()] calls made so far. *)
Definition releases (s : Subject) : nat :=
  length (filter (fun e => is_release e = true) (trace s)).

(** A reply that parses to nothing in particular. *)
Definition msg (t : Z) (err : option RpcErr) : RpcMessage :=
  mkMsg t err (fun _ => PBody 0).

(** A reply of type 5 whose body cannot be parsed. *)
Definition bad_body_msg : RpcMessage := mkMsg 5 None (fun _ => PThrow (Opaque 1)).

Example ex_ack :
  releases (run [OAckThenClose; ONext (msg 0 None)] init) = 1%nat /\
  promises (run [OAckThenClose; ONext (msg 0 None)] init) = [Resolved VUndefined].
Proof. split; reflexivity. Qed.

Example ex_disc2 : releases (run [ODisconnect None; ODisconnect None] init) = 2%nat.
Proof. reflexivity. Qed.

Definition is_accessor (l : Listener) : bool :=
  match l with
  | LAck _ | LWaitMsg _ | LWaitNext _ _ _ | LFirst _ _ _ => true
  | _ => false
  end.

Definition is_accessor_op (o : Op) : bool :=
  match o with
  | OAckThenClose | OWaitNextMessage | OWaitNext _ _ | OFirstThenClose _ _ => true
  | _ => false
  end.


(** ** Basic facts about the state transformers *)

Create Rewrite HintDb subject.

Lemma trace_settle p r s : trace (settle p r s) = trace s.
Proof. unfold settle; destruct (promises s !! p) as [[]|]; reflexivity. Qed.

Lemma uncatched_settle p r s : uncatchedNext (settle p r s) = uncatchedNext s.
Proof. unfold settle; destruct (promises s !! p) as [[]|]; reflexivity. Qed.

Lemma listener_settle p r s : onReplyCallback (settle p r s) = onReplyCallback s.
Proof. unfold settle; destruct (promises s !! p) as [[]|]; reflexivity. Qed.

Lemma rejected_settle p r s : rejected (settle p r s) = rejected s.
Proof. unfold settle; destruct (promises s !! p) as [[]|]; reflexivity. Qed.

Lemma settle_pending p r s :
  promises s !! p = Some Pending -> promises (settle p r s) !! p = Some r.
Proof.
  intros Hp. unfold settle. rewrite Hp. simpl.
  apply list_lookup_insert_eq. eapply lookup_lt_Some; eauto.
Qed.

Lemma settle_settled p r s :
  promises s !! p <> Some Pending -> settle p r s = s.
Proof. unfold settle; destruct (promises s !! p) as [[]|]; congruence. Qed.

Global Hint Rewrite trace_settle uncatched_settle listener_settle rejected_settle : subject.

Lemma releases_release s : releases (release s) = S (releases s).
Proof. reflexivity. Qed.

Lemma releases_settle p r s : releases (settle p r s) = releases s.
Proof. unfold releases; now rewrite trace_settle. Qed.

Lemma releases_set_listener l s : releases (set_listener l s) = releases s.
Proof. reflexivity. Qed.
Lemma releases_set_rejected r s : releases (set_rejected r s) = releases s.
Proof. reflexivity. Qed.
Lemma releases_set_uncatched o s : releases (set_uncatched o s) = releases s.
Proof. reflexivity. Qed.
Lemma releases_rejected_call r e s : releases (emit (ERejectedCall r e) s) = releases s.
Proof. reflexivity. Qed.
Lemma releases_throw e s : releases (emit (EThrow e) s) = releases s.
Proof. reflexivity. Qed.

Global Hint Rewrite releases_release releases_settle releases_set_listener
  releases_set_rejected releases_set_uncatched releases_rejected_call
  releases_throw : subject.

Lemma subject_eta s :
  mkSubject (uncatchedNext s) (onReplyCallback s) (rejected s) (promises s) (trace s) = s.
Proof. destruct s; reflexivity. Qed.

(** The default listener only overwrites the buffer. *)
Lemma next_catch m s :
  onReplyCallback s = LCatch -> next m s = set_uncatched (Some m) s.
Proof. intros H. unfold next. rewrite H. reflexivity. Qed.

(** [noop] leaves the subject untouched. *)
Lemma next_noop m s : onReplyCallback s = LNoop -> next m s = s.
Proof. intros H. unfold next. rewrite H. reflexivity. Qed.


Lemma run_next_noop ms s :
  onReplyCallback s = LNoop -> run (map ONext ms) s = s.
Proof.
  revert s; induction ms as [|m ms IH]; intros s H; simpl; [reflexivity|].
  rewrite next_noop by exact H. now apply IH.
Qed.


Lemma releases_emit e s :
  is_release e = false -> releases (emit e s) = releases s.
Proof. intros H. destruct e; try discriminate; reflexivity. Qed.

Ltac run_listener H :=
  unfold next; rewrite H; simpl; unfold resolve, reject.

(** ** Release *)

(** C1 (counterexample): [release] is not guarded.  Disconnecting after
    ackThenClose has already released the handle, or disconnecting twice,
    calls [release] a second time. *)
Lemma release_twice_after_terminal :
  releases (run [OAckThenClose; ONext (msg RpcTypes_Ack None); ODisconnect None] init) = 2%nat /\
  releases (run [ODisconnect None; ODisconnect None] init) = 2%nat.
Proof. split; reflexivity. Qed.

(** C1 (amended): how many times each path calls [release].  Every
    [disconnect] calls it once, whatever happened before; a reply handled by
    ackThenClose calls it once, by waitNextMessage never, by waitNext once
    exactly when it is an error reply of another type, and by
    firstThenClose once when it has the expected type or is a non-error
    reply of another type; the buffering, no-op and user listeners never
    call it. *)
Theorem release_accounting :
  (forall s error, releases (disconnect error s) = S (releases s)) /\
  (forall s m p, onReplyCallback s = LAck p -> releases (next m s) = S (releases s)) /\
  (forall s m p, onReplyCallback s = LWaitMsg p -> releases (next m s) = releases s) /\
  (forall s m p type sc, onReplyCallback s = LWaitNext p type sc ->
     releases (next m s) =
       if Z.eqb (mtype m) type || negb (isError m) then releases s else S (releases s)) /\
  (forall s m p type sc, onReplyCallback s = LFirst p type sc ->
     mtype m = type \/ isError m = false -> releases (next m s) = S (releases s)) /\
  (forall s m, onReplyCallback s = LCatch \/ onReplyCallback s = LNoop \/
     (exists k f, onReplyCallback s = LUser k f) -> releases (next m s) = releases s).
Proof.
  split; [|split; [|split; [|split; [|split]]]].
  - intros s error. unfold disconnect.
    destruct (rejected s) as [[p|k]|]; simpl; unfold reject;
      autorewrite with subject; reflexivity.
  - intros s m p H. run_listener H.
    destruct (mtype m =? RpcTypes_Ack); [|destruct (merror m)];
      autorewrite with subject; reflexivity.
  - intros s m p H. run_listener H. autorewrite with subject; reflexivity.
  - intros s m p type sc H. run_listener H. unfold isError.
    destruct (mtype m =? type); simpl.
    + destruct sc as [x|]; [destruct (mparse m x)|]; simpl;
        autorewrite with subject; reflexivity.
    + destruct (merror m); simpl; autorewrite with subject; reflexivity.
  - intros s m p type sc H Hm. run_listener H.
    destruct (Z.eqb_spec (mtype m) type) as [E|E].
    + destruct sc as [x|]; [destruct (mparse m x)|]; simpl;
        autorewrite with subject; reflexivity.
    + destruct Hm as [Hm|Hm]; [contradiction|].
      unfold isError in Hm. destruct (merror m); [discriminate|].
      autorewrite with subject; reflexivity.
  - intros s m [H|[H|[k [f H]]]].
    + now rewrite next_catch.
    + now rewrite next_noop.
    + run_listener H. destruct (f m); reflexivity.
Qed.

Lemma release_accounting_witness :
  releases (next (msg 0 None) (ackThenClose init)) = 1%nat /\
  releases (next (msg 4 None) (firstThenClose 4 None init)) = 1%nat.
Proof.
  split.
  - exact (proj1 (proj2 release_accounting) (ackThenClose init) (msg 0 None) 0%nat eq_refl).
  - exact (proj1 (proj2 (proj2 (proj2 (proj2 release_accounting))))
             (firstThenClose 4 None init) (msg 4 None) 0%nat 4 None eq_refl
             (or_introl eq_refl)).
Defined.

(** ** Buffering *)




Lemma settle_lookup p r s :
  promises (settle p r s) !! p =
    match promises s !! p with Some Pending => Some r | o => o end.
Proof.
  unfold settle. destruct (promises s !! p) as [[]|] eqn:E; try exact E.
  simpl. apply list_lookup_insert_eq. eapply lookup_lt_Some; eauto.
Qed.

Lemma accessor_promise_pending (s : Subject) :
  (promises s ++ [Pending]) !! length (promises s) = Some Pending.
Proof. apply list_lookup_middle; reflexivity. Qed.

(** waitNext's closure: it resolves only on a reply of the expected type,
    and rejects a non-error reply of another type with
    [UnexpectedMessageType], without throwing. *)
Lemma callListener_waitNext s m p type sc :
  promises s !! p = Some Pending ->
  (forall v, promises (fst (callListener (LWaitNext p type sc) m s)) !! p = Some (Resolved v) ->
     mtype m = type) /\
  (mtype m <> type -> isError m = false ->
     snd (callListener (LWaitNext p type sc) m s) = None /\
     promises (fst (callListener (LWaitNext p type sc) m s)) !! p =
       Some (Rejected (UnexpectedMessageType type (mtype m)))).
Proof.
  intros Hp. simpl. unfold resolve, reject, isError.
  destruct (Z.eqb_spec (mtype m) type) as [E|E].
  - split; [intros; exact E | intros; contradiction].
  - split.
    + intros v. destruct (merror m); cbn [fst snd]; rewrite settle_lookup; simpl;
        rewrite Hp; discriminate.
    + intros _ Hm. destruct (merror m); [discriminate|]. split; [reflexivity|].
      cbn [fst snd]. rewrite settle_lookup. simpl. now rewrite Hp.
Qed.

(** ** Disconnect *)

(** C3 (counterexample): the [noop] that [disconnect] installs is not
    permanent.  An accessor called after [disconnect] installs its own
    listener; a reply delivered afterwards settles that accessor's promise
    and restores the buffering listener, so later replies are buffered. *)
Lemma disconnect_noop_replaced :
  let s := run [ODisconnect None; OWaitNextMessage] init in
  onReplyCallback (disconnect None init) = LNoop /\
  promises s = [Pending] /\
  promises (next (msg 5 None) s) = [Resolved (VMsg (msg 5 None))] /\
  onReplyCallback (next (msg 5 None) s) = LCatch /\
  uncatchedNext (run [ONext (msg 5 None); ONext (msg 6 None)] s) = Some (msg 6 None).
Proof. repeat split; reflexivity. Qed.

(** C3 (amended): [disconnect(error?)] calls the installed rejection
    callback, if any, with [error] (or [ConnectionClosed] when none is
    given) and clears it, installs [noop] and calls [release] once; replies
    delivered afterwards leave the subject unchanged for as long as no new
    listener is installed. *)
Theorem disconnect_effect s error :
  let e := match error with Some e => e | None => ConnectionClosed end in
  let s' := disconnect error s in
  rejected s' = None /\ onReplyCallback s' = LNoop /\
  uncatchedNext s' = uncatchedNext s /\
  trace s' = ERelease :: match rejected s with Some r => [ERejectedCall r e] | None => [] end
             ++ trace s /\
  (forall p, rejected s = Some (RPromise p) -> promises s !! p = Some Pending ->
     promises s' !! p = Some (Rejected e)) /\
  (rejected s = None -> promises s' = promises s) /\
  (forall ms, run (map ONext ms) s' = s').
Proof.
  intros e s'.
  assert (Hn : forall ms, run (map ONext ms) s' = s') by (intros; now apply run_next_noop).
  subst s'. unfold disconnect in *. fold e in Hn.
  destruct (rejected s) as [[p|k]|] eqn:R; simpl.
  - unfold reject. autorewrite with subject.
    repeat split; try reflexivity; try assumption; try discriminate.
    intros q [= <-] Hp. rewrite settle_lookup. simpl. now rewrite Hp.
  - repeat split; try reflexivity; try assumption; discriminate.
  - repeat split; try reflexivity; try assumption; discriminate.
Qed.

Lemma disconnect_effect_witness :
  promises (disconnect None (ackThenClose init)) !! 0%nat = Some (Rejected ConnectionClosed).
Proof.
  apply (proj1 (proj2 (proj2 (proj2 (proj2 (disconnect_effect (ackThenClose init) None)))))
           0%nat); reflexivity.
Defined.

(** ** Type mismatch *)

(** C4 (counterexample): firstThenClose calls [release] before it looks at
    the reply, so a non-error reply of another type does release the
    handle. *)
Lemma firstThenClose_mismatch_releases :
  let s := run [OFirstThenClose 7 None; ONext (msg 99 None)] init in
  promises s = [Rejected (UnexpectedMessageType 7 99)] /\ releases s = 1%nat.
Proof. split; reflexivity. Qed.

(** C4 (amended): on a non-error reply of another type both accessors reject
    with [UnexpectedMessageType]; waitNext leaves the handle un-released,
    firstThenClose releases it once, as it does on every reply. *)
Theorem mismatch_release :
  (forall s m p type sc, onReplyCallback s = LWaitNext p type sc ->
     promises s !! p = Some Pending -> mtype m <> type -> isError m = false ->
     promises (next m s) !! p = Some (Rejected (UnexpectedMessageType type (mtype m))) /\
     releases (next m s) = releases s) /\
  (forall s m p type sc, onReplyCallback s = LFirst p type sc ->
     promises s !! p = Some Pending -> mtype m <> type -> isError m = false ->
     promises (next m s) !! p = Some (Rejected (UnexpectedMessageType type (mtype m))) /\
     releases (next m s) = S (releases s)).
Proof.
  split; intros s m p type sc H Hp Ht He; unfold isError in He;
    run_listener H; destruct (Z.eqb_spec (mtype m) type) as [E|E];
    try contradiction; destruct (merror m); try discriminate;
    rewrite settle_lookup, releases_settle; simpl; rewrite Hp; split; reflexivity.
Qed.

Lemma mismatch_release_witness :
  promises (next (msg 99 None) (waitNext 7 None init)) !! 0%nat =
    Some (Rejected (UnexpectedMessageType 7 99)) /\
  promises (next (msg 99 None) (firstThenClose 7 None init)) !! 0%nat =
    Some (Rejected (UnexpectedMessageType 7 99)).
Proof.
  split.
  - apply (proj1 mismatch_release (waitNext 7 None init) (msg 99 None) 0%nat 7 None);
      [reflexivity | reflexivity | simpl; lia | reflexivity].
  - apply (proj2 mismatch_release (firstThenClose 7 None init) (msg 99 None) 0%nat 7 None);
      [reflexivity | reflexivity | simpl; lia | reflexivity].
Defined.

Lemma settle_resolved p r s v :
  promises (settle p r s) !! p = Some (Resolved v) ->
  r = Resolved v \/ promises s !! p = Some (Resolved v).
Proof.
  rewrite settle_lookup. destruct (promises s !! p) as [[]|]; intros E;
    first [left; congruence | right; exact E].
Qed.

(** An accessor called with a reply in the buffer: the closure runs at
    once on the buffered reply. *)
Lemma accessor_buffered mk s m :
  uncatchedNext s = Some m ->
  accessor mk s =
    let p := length (promises s) in
    let s0 := set_listener (mk p) (set_rejected (Some (RPromise p))
                (set_promises (promises s ++ [Pending]) s)) in
    match callListener (mk p) m s0 with
    | (s', None) => set_uncatched None s'
    | (s', Some e) => reject p e s'
    end.
Proof.
  intros H. unfold accessor, onReply. simpl. rewrite H.
  destruct (callListener _ m _) as [s' [e|]]; reflexivity.
Qed.

(** ** Type matching *)

(** C5: waitNext(type) resolves only on a reply whose type tag is [type];
    a non-error reply with another tag rejects it with
    [UnexpectedMessageType type actual].  This holds for a reply delivered
    while waitNext waits, and for a buffered reply that waitNext replays. *)
Theorem waitNext_type_exact :
  (forall s m p type sc, onReplyCallback s = LWaitNext p type sc ->
     promises s !! p = Some Pending ->
     (forall v, promises (next m s) !! p = Some (Resolved v) -> mtype m = type) /\
     (mtype m <> type -> isError m = false ->
        promises (next m s) !! p = Some (Rejected (UnexpectedMessageType type (mtype m))))) /\
  (forall s m type sc, uncatchedNext s = Some m ->
     let p := length (promises s) in
     (forall v, promises (waitNext type sc s) !! p = Some (Resolved v) -> mtype m = type) /\
     (mtype m <> type -> isError m = false ->
        promises (waitNext type sc s) !! p = Some (Rejected (UnexpectedMessageType type (mtype m))))).
Proof.
  split.
  - intros s m p type sc H Hp.
    destruct (callListener_waitNext s m p type sc Hp) as [A B].
    unfold next. rewrite H.
    destruct (callListener (LWaitNext p type sc) m s) as [s' [e|]] eqn:C;
      simpl in A, B |- *; split; try exact A;
      intros Ht He; destruct (B Ht He) as [B1 B2]; try discriminate; exact B2.
  - intros s m type sc Hb p.
    unfold waitNext. rewrite (accessor_buffered _ s m Hb). fold p. cbv zeta.
    set (s0 := set_listener _ _).
    assert (Hp : promises s0 !! p = Some Pending) by apply accessor_promise_pending.
    destruct (callListener_waitNext s0 m p type sc Hp) as [A B].
    destruct (callListener (LWaitNext p type sc) m s0) as [s' [e|]] eqn:C;
      simpl in A, B |- *.
    + split.
      * intros v Hv. apply settle_resolved in Hv as [Hv|Hv]; [discriminate|].
        exact (A v Hv).
      * intros Ht He. destruct (B Ht He) as [B1 _]. discriminate.
    + split; [exact A|]. intros Ht He. exact (proj2 (B Ht He)).
Qed.

Lemma waitNext_type_exact_witness :
  promises (next (msg 99 None) (waitNext 42 None init)) !! 0%nat =
    Some (Rejected (UnexpectedMessageType 42 99)) /\
  promises (waitNext 42 None (next (msg 99 None) init)) !! 0%nat =
    Some (Rejected (UnexpectedMessageType 42 99)).
Proof.
  split.
  - apply (proj1 waitNext_type_exact (waitNext 42 None init) (msg 99 None) 0%nat 42 None);
      [reflexivity | reflexivity | simpl; lia | reflexivity].
  - apply (proj2 waitNext_type_exact (next (msg 99 None) init) (msg 99 None) 42 None);
      [reflexivity | simpl; lia | reflexivity].
Defined.



(** ** After the end of a call *)




(** ** Error replies *)

(** C7 (counterexample): waitNextMessage resolves with an error reply as it
    is, without rejecting and without calling [release]. *)
Lemma waitNextMessage_error_reply_resolves :
  let s := run [OWaitNextMessage; ONext (msg 5 (Some (Opaque 1)))] init in
  promises s = [Resolved (VMsg (msg 5 (Some (Opaque 1))))] /\ releases s = 0%nat.
Proof. split; reflexivity. Qed.

(** C7 (amended): an error reply of a type other than the expected one
    (Ack, or the [type] argument) makes ackThenClose and waitNext reject
    with the carried error and call [release] once, and firstThenClose
    reject with the carried error and call [release]; waitNextMessage
    resolves with the raw reply and does not call [release]. *)
Theorem error_reply_paths :
  (forall s m p e, onReplyCallback s = LAck p -> promises s !! p = Some Pending ->
     mtype m <> RpcTypes_Ack -> merror m = Some e ->
     promises (next m s) !! p = Some (Rejected e) /\ releases (next m s) = S (releases s)) /\
  (forall s m p type sc e, onReplyCallback s = LWaitNext p type sc ->
     promises s !! p = Some Pending -> mtype m <> type -> merror m = Some e ->
     promises (next m s) !! p = Some (Rejected e) /\ releases (next m s) = S (releases s)) /\
  (forall s m p type sc e, onReplyCallback s = LFirst p type sc ->
     promises s !! p = Some Pending -> mtype m <> type -> merror m = Some e ->
     promises (next m s) !! p = Some (Rejected e) /\ (S (releases s) <= releases (next m s))%nat) /\
  (forall s m p, onReplyCallback s = LWaitMsg p -> promises s !! p = Some Pending ->
     promises (next m s) !! p = Some (Resolved (VMsg m)) /\ releases (next m s) = releases s).
Proof.
  split; [|split; [|split]].
  - intros s m p e H Hp Ht He. run_listener H.
    destruct (Z.eqb_spec (mtype m) RpcTypes_Ack); [contradiction|]. rewrite He.
    rewrite settle_lookup, releases_settle. simpl. rewrite Hp. split; reflexivity.
  - intros s m p type sc e H Hp Ht He. run_listener H.
    destruct (Z.eqb_spec (mtype m) type); [contradiction|]. rewrite He.
    rewrite settle_lookup, releases_settle. simpl. rewrite Hp. split; reflexivity.
  - intros s m p type sc e H Hp Ht He. run_listener H.
    destruct (Z.eqb_spec (mtype m) type); [contradiction|]. rewrite He.
    rewrite settle_lookup, releases_settle. simpl. rewrite Hp. split; [reflexivity|].
    unfold releases; simpl; lia.
  - intros s m p H Hp. run_listener H.
    rewrite settle_lookup, releases_settle. simpl. rewrite Hp. split; reflexivity.
Qed.

Lemma error_reply_paths_witness :
  promises (next (msg 5 (Some (Opaque 1))) (ackThenClose init)) !! 0%nat =
    Some (Rejected (Opaque 1)) /\
  promises (next (msg 5 (Some (Opaque 1))) (waitNextMessage init)) !! 0%nat =
    Some (Resolved (VMsg (msg 5 (Some (Opaque 1))))).
Proof.
  split.
  - apply (proj1 error_reply_paths (ackThenClose init) (msg 5 (Some (Opaque 1))) 0%nat (Opaque 1));
      [reflexivity | reflexivity | unfold RpcTypes_Ack; simpl; lia | reflexivity].
  - apply (proj2 (proj2 (proj2 error_reply_paths)) (waitNextMessage init)
             (msg 5 (Some (Opaque 1))) 0%nat); reflexivity.
Defined.

(** ** Body-parse errors *)

(** C8 (code defect): waitNext has no try/catch around [parseBody], unlike
    firstThenClose.  When the matching reply arrives while waitNext waits,
    the parse error escapes [next] to the dispatcher and waitNext's promise
    stays pending; firstThenClose rejects with the parse error and
    releases. *)
Theorem waitNext_parse_error_escapes :
  let s := run [OWaitNext 5 (Some 0%nat); ONext bad_body_msg] init in
  let s' := run [OFirstThenClose 5 (Some 0%nat); ONext bad_body_msg] init in
  promises s = [Pending] /\ hd_error (trace s) = Some (EThrow (Opaque 1)) /\
  promises s' = [Rejected (Opaque 1)] /\ releases s' = 1%nat.
Proof. repeat split; reflexivity. Qed.

(** ** Type check before error check *)

(** C9: in waitNext and firstThenClose the type test comes first, so an
    error reply that has the expected type resolves the promise (with the
    parsed body when a schema is given and parsing succeeds) and is never
    rejected with its carried error. *)
Theorem type_before_error s m p type sc e b :
  merror m = Some e -> mtype m = type ->
  (forall x, sc = Some x -> mparse m x = PBody b) ->
  promises s !! p = Some Pending ->
  (onReplyCallback s = LWaitNext p type sc ->
     promises (next m s) !! p =
       Some (Resolved (match sc with None => VUndefined | Some _ => VBody b end))) /\
  (onReplyCallback s = LFirst p type sc ->
     promises (next m s) !! p =
       Some (Resolved (match sc with None => VMsg m | Some _ => VBody b end))).
Proof.
  intros He Ht Hparse Hp. split; intros H; run_listener H;
    rewrite Ht, Z.eqb_refl;
    destruct sc as [x|]; try rewrite (Hparse x eq_refl);
    rewrite settle_lookup; simpl; now rewrite Hp.
Qed.

(** An error reply of type 5 whose body parses to 9. *)
Definition err_reply_5 : RpcMessage := mkMsg 5 (Some (Opaque 1)) (fun _ => PBody 9).

Lemma type_before_error_witness :
  promises (next err_reply_5 (waitNext 5 (Some 0%nat) init)) !! 0%nat =
    Some (Resolved (VBody 9)).
Proof.
  apply (proj1 (type_before_error (waitNext 5 (Some 0%nat) init) err_reply_5 0%nat 5
                  (Some 0%nat) (Opaque 1) 9 eq_refl eq_refl
                  (fun x _ => eq_refl) eq_refl) eq_refl).
Defined.

(** ** The rejection callback after a reply *)

Lemma accessor_unbuffered mk s :
  uncatchedNext s = None ->
  accessor mk s =
    let p := length (promises s) in
    set_listener (mk p) (set_rejected (Some (RPromise p))
      (set_promises (promises s ++ [Pending]) s)).
Proof. intros H. unfold accessor, onReply. simpl. rewrite H. reflexivity. Qed.

Lemma rejected_next_keep s m :
  match onReplyCallback s with LWaitMsg _ | LWaitNext _ _ _ | LFirst _ _ _ => True | _ => False end ->
  rejected (next m s) = rejected s.
Proof.
  intros H.
  assert (C : rejected (fst (callListener (onReplyCallback s) m s)) = rejected s).
  { destruct (onReplyCallback s); try contradiction; simpl; unfold resolve, reject;
      repeat (case_match; simpl; autorewrite with subject; try reflexivity);
      autorewrite with subject; reflexivity. }
  unfold next. destruct (callListener (onReplyCallback s) m s) as [s' [e|]]; exact C.
Qed.

Lemma rejected_next_ack s m p :
  onReplyCallback s = LAck p -> rejected (next m s) = None.
Proof.
  intros H. run_listener H.
  destruct (mtype m =? RpcTypes_Ack); [|destruct (merror m)];
    autorewrite with subject; reflexivity.
Qed.

Lemma disconnect_trace s error :
  trace (disconnect error s) =
    ERelease :: match rejected s with
                | Some r => [ERejectedCall r (match error with Some e => e | None => ConnectionClosed end)]
                | None => []
                end ++ trace s.
Proof.
  unfold disconnect. destruct (rejected s) as [[p|k]|]; simpl; unfold reject;
    autorewrite with subject; reflexivity.
Qed.

(** C10: ackThenClose clears the rejection callback when it handles a
    reply, so a later [disconnect] calls no rejection callback; waitNextMessage,
    waitNext and firstThenClose leave their [reject] installed, so a later
    [disconnect] still calls it with the disconnect error. *)
Theorem rejected_after_reply s m error :
  uncatchedNext s = None ->
  let p := length (promises s) in
  let e := match error with Some e => e | None => ConnectionClosed end in
  (let s2 := next m (ackThenClose s) in
   rejected s2 = None /\ trace (disconnect error s2) = ERelease :: trace s2) /\
  (forall o, o = OWaitNextMessage \/ (exists t sc, o = OWaitNext t sc) \/
             (exists t sc, o = OFirstThenClose t sc) ->
   let s2 := next m (step o s) in
   rejected s2 = Some (RPromise p) /\
   trace (disconnect error s2) = ERelease :: ERejectedCall (RPromise p) e :: trace s2).
Proof.
  intros Hb p e. split.
  - assert (R : rejected (next m (ackThenClose s)) = None).
    { apply (rejected_next_ack _ _ p). unfold ackThenClose.
      now rewrite accessor_unbuffered. }
    split; [exact R|]. rewrite disconnect_trace, R. reflexivity.
  - intros o Ho.
    assert (R : rejected (next m (step o s)) = Some (RPromise p)).
    { destruct Ho as [->|[[t [sc ->]]|[t [sc ->]]]]; simpl;
        unfold waitNextMessage, waitNext, firstThenClose;
        rewrite accessor_unbuffered by exact Hb;
        rewrite rejected_next_keep; simpl; trivial. }
    split; [exact R|]. rewrite disconnect_trace, R. reflexivity.
Qed.

Lemma rejected_after_reply_witness :
  trace (disconnect None (next (msg 5 None) (step (OWaitNext 5 None) init))) =
    [ERelease; ERejectedCall (RPromise 0) ConnectionClosed].
Proof.
  exact (proj2 (proj2 (rejected_after_reply init (msg 5 None) None eq_refl)
                  (OWaitNext 5 None) (or_intror (or_introl (ex_intro _ 5 (ex_intro _ None eq_refl)))))).
Defined.

(** ** Further properties of RpcMessageSubject *)

(** [onReply(callback)] replaces whatever listener was installed: the next
    reply reaches the new callback only (an exception it throws escapes
    [next]), and nothing else of the subject changes. *)
Theorem onReply_replaces s k f m :
  let s1 := fst (onReply (LUser k f) s) in
  onReplyCallback s1 = LUser k f /\
  next m s1 = match f m with
              | None => emit (EUserReply k m) s1
              | Some e => emit (EThrow e) (emit (EUserReply k m) s1)
              end.
Proof.
  unfold onReply. destruct (uncatchedNext s) as [m0|] eqn:E; cbn; rewrite ?E.
  - destruct (f m0); cbn; split; try reflexivity; unfold next; cbn; destruct (f m); reflexivity.
  - split; [reflexivity|]. unfold next; cbn. destruct (f m); reflexivity.
Qed.

(** [next] throws exactly in two cases: the installed callback is one
    handed to [onReply] that throws on the reply, or it is waitNext's
    closure, the reply has the awaited type, a schema was given and
    [parseBody] throws.  The other accessors' closures, the buffering
    listener and [noop] never throw. *)
Theorem next_throws_iff s m e :
  snd (callListener (onReplyCallback s) m s) = Some e <->
  (exists k f, onReplyCallback s = LUser k f /\ f m = Some e) \/
  (exists p sc, onReplyCallback s = LWaitNext p (mtype m) (Some sc) /\ mparse m sc = PThrow e).
Proof.
  split.
  - destruct (onReplyCallback s) as [| |k f|p|p|p t sc|p t sc]; cbn;
      repeat case_match; cbn; intros Hs; try discriminate.
    + left. eauto.
    + right. apply Z.eqb_eq in H. injection Hs as ->. subst. eauto.
  - intros [(k & f & L & F)|(p & sc & L & P)]; rewrite L; cbn.
    + exact F.
    + now rewrite Z.eqb_refl, P.
Qed.

Lemma next_throws_iff_witness :
  snd (callListener (onReplyCallback (waitNext 5 (Some 0%nat) init)) bad_body_msg
         (waitNext 5 (Some 0%nat) init)) = Some (Opaque 1) /\
  snd (callListener (onReplyCallback (fst (onReply (LUser 2 (fun _ => Some (Opaque 4))) init)))
         (msg 1 None) (fst (onReply (LUser 2 (fun _ => Some (Opaque 4))) init))) = Some (Opaque 4).
Proof.
  split; apply next_throws_iff.
  - right. exists 0%nat, 0%nat. split; reflexivity.
  - left. exists 2%nat, (fun _ => Some (Opaque 4)). split; reflexivity.
Defined.

Lemma callListener_uncatched l m o s :
  is_accessor l = true ->
  callListener l m (set_uncatched o s) =
    (set_uncatched o (fst (callListener l m s)), snd (callListener l m s)).
Proof.
  destruct l; try discriminate; intros _; cbn; unfold resolve, reject, settle; cbn;
    repeat case_match; reflexivity.
Qed.

Lemma uncatched_callListener l m s :
  is_accessor l = true -> uncatchedNext (fst (callListener l m s)) = uncatchedNext s.
Proof.
  destruct l; try discriminate; intros _; cbn; unfold resolve, reject;
    repeat (case_match; cbn; autorewrite with subject; try reflexivity);
    autorewrite with subject; reflexivity.
Qed.

(** Calling an accessor while a reply is buffered does the same as calling
    it on an empty buffer and then delivering that reply with [next], as
    long as the accessor's closure does not throw on it. *)
Theorem replay_is_delivery mk s m :
  (forall p, is_accessor (mk p) = true) ->
  (forall p s', snd (callListener (mk p) m s') = None) ->
  uncatchedNext s = Some m ->
  accessor mk s = next m (accessor mk (set_uncatched None s)).
Proof.
  intros A N E.
  rewrite (accessor_buffered mk s m E), (accessor_unbuffered mk (set_uncatched None s) eq_refl).
  cbv zeta. cbn [promises set_uncatched]. set (p := length (promises s)).
  set (s0 := set_listener (mk p) (set_rejected (Some (RPromise p))
               (set_promises (promises s ++ [Pending]) (set_uncatched None s)))).
  replace (set_listener (mk p) _) with (set_uncatched (Some m) s0)
    by (cbn; rewrite <- E; reflexivity).
  unfold next. cbn [onReplyCallback s0 set_listener].
  rewrite (callListener_uncatched _ _ _ _ (A p)), (N p s0).
  destruct (callListener (mk p) m s0) as [s' o] eqn:C.
  specialize (N p s0). rewrite C in N. cbn in N |- *. subst o.
  pose proof (uncatched_callListener (mk p) m s0 (A p)) as U. rewrite C in U.
  cbn in U. unfold set_uncatched. cbn. rewrite <- U. apply subject_eta.
Qed.

Lemma replay_is_delivery_witness :
  ackThenClose (next (msg 0 None) init) =
    next (msg 0 None) (ackThenClose (set_uncatched None (next (msg 0 None) init))).
Proof.
  apply (replay_is_delivery LAck); [reflexivity | | reflexivity].
  intros p s'. reflexivity.
Defined.

Lemma settle_new s' ps r :
  promises s' = ps ++ [Pending] -> promises (settle (length ps) r s') = ps ++ [r].
Proof.
  intros H. unfold settle. rewrite H, list_lookup_middle by reflexivity. cbn.
  pose proof (insert_app_r ps [Pending] 0 r) as I. rewrite Nat.add_0_r in I.
  exact I.
Qed.

(** When waitNext replays a buffered reply of the awaited type whose body
    fails to parse, the exception leaves [onReply] before the buffer is
    cleared: waitNext rejects with the parse error, but the reply stays
    buffered, and the next accessor receives the same reply again. *)
Theorem waitNext_replay_parse_error_keeps_buffer s m sc e :
  uncatchedNext s = Some m -> mparse m sc = PThrow e ->
  let s1 := waitNext (mtype m) (Some sc) s in
  promises s1 = promises s ++ [Rejected e] /\ uncatchedNext s1 = Some m /\
  onReplyCallback s1 = LCatch /\
  promises (waitNextMessage s1) = promises s ++ [Rejected e; Resolved (VMsg m)].
Proof.
  intros E P s1.
  assert (S1 : s1 = reject (length (promises s)) e
                      (set_listener LCatch (set_listener (LWaitNext (length (promises s)) (mtype m) (Some sc))
                        (set_rejected (Some (RPromise (length (promises s))))
                          (set_promises (promises s ++ [Pending]) s))))).
  { subst s1. unfold waitNext. rewrite (accessor_buffered _ s m E). cbn.
    now rewrite Z.eqb_refl, P. }
  clearbody s1.
  assert (P1 : promises s1 = promises s ++ [Rejected e])
    by (rewrite S1; apply settle_new; reflexivity).
  assert (U1 : uncatchedNext s1 = Some m) by (rewrite S1; unfold reject;
    rewrite uncatched_settle; exact E).
  split; [exact P1|]. split; [exact U1|]. split.
  - rewrite S1. unfold reject. now rewrite listener_settle.
  - unfold waitNextMessage. rewrite (accessor_buffered _ s1 m U1). cbn.
    rewrite P1. unfold resolve.
    replace (promises s ++ [Rejected e; Resolved (VMsg m)])
      with ((promises s ++ [Rejected e]) ++ [Resolved (VMsg m)])
      by (rewrite <- app_assoc; reflexivity).
    apply settle_new. reflexivity.
Qed.

Lemma waitNext_replay_parse_error_keeps_buffer_witness :
  uncatchedNext (waitNext 5 (Some 0%nat) (next bad_body_msg init)) = Some bad_body_msg.
Proof.
  exact (proj1 (proj2 (waitNext_replay_parse_error_keeps_buffer (next bad_body_msg init)
                         bad_body_msg 0%nat (Opaque 1) eq_refl eq_refl))).
Defined.

(** An accessor called on an empty buffer replaces any rejection callback
    installed before; a [disconnect] while it waits rejects its promise with
    the disconnect error (or [ConnectionClosed]), invokes only that
    accessor's [reject], and calls [release] once. *)
Theorem disconnect_while_waiting s o error :
  is_accessor_op o = true -> uncatchedNext s = None ->
  let p := length (promises s) in
  let e := match error with Some e => e | None => ConnectionClosed end in
  promises (disconnect error (step o s)) = promises s ++ [Rejected e] /\
  trace (disconnect error (step o s)) = ERelease :: ERejectedCall (RPromise p) e :: trace s.
Proof.
  intros Ho E p e.
  assert (R : forall mk, promises (disconnect error (accessor mk s)) = promises s ++ [Rejected e] /\
     trace (disconnect error (accessor mk s)) = ERelease :: ERejectedCall (RPromise p) e :: trace s).
  { intros mk. rewrite (accessor_unbuffered mk s E). unfold disconnect. cbn. unfold reject.
    split; [apply settle_new; reflexivity | now rewrite trace_settle]. }
  destruct o; try discriminate; apply R.
Qed.

Lemma disconnect_while_waiting_witness :
  trace (disconnect (Some (Opaque 3)) (step (OFirstThenClose 7 None) (onRejected 2 init))) =
    [ERelease; ERejectedCall (RPromise 0) (Opaque 3)].
Proof.
  exact (proj2 (disconnect_while_waiting (onRejected 2 init) (OFirstThenClose 7 None)
                  (Some (Opaque 3)) eq_refl eq_refl)).
Defined.

(** Success paths: an Ack reply resolves ackThenClose with no value,
    releases once and clears the rejection callback; a reply of the awaited
    type resolves waitNext (no schema) with no value and no release, and
    firstThenClose (no schema) with the reply itself and one release. *)
Theorem success_paths :
  (forall s m p, onReplyCallback s = LAck p -> promises s !! p = Some Pending ->
     mtype m = RpcTypes_Ack ->
     promises (next m s) !! p = Some (Resolved VUndefined) /\
     releases (next m s) = S (releases s) /\ rejected (next m s) = None) /\
  (forall s m p, onReplyCallback s = LWaitNext p (mtype m) None -> promises s !! p = Some Pending ->
     promises (next m s) !! p = Some (Resolved VUndefined) /\ releases (next m s) = releases s) /\
  (forall s m p, onReplyCallback s = LFirst p (mtype m) None -> promises s !! p = Some Pending ->
     promises (next m s) !! p = Some (Resolved (VMsg m)) /\ releases (next m s) = S (releases s)).
Proof.
  split; [|split].
  - intros s m p H Hp Ht. run_listener H. rewrite Ht, Z.eqb_refl.
    rewrite settle_lookup, releases_settle, rejected_settle. cbn. rewrite Hp.
    repeat split; reflexivity.
  - intros s m p H Hp. run_listener H. rewrite Z.eqb_refl.
    rewrite settle_lookup, releases_settle. cbn. rewrite Hp. split; reflexivity.
  - intros s m p H Hp. run_listener H. rewrite Z.eqb_refl.
    rewrite settle_lookup, releases_settle. cbn. rewrite Hp. split; reflexivity.
Qed.

Lemma success_paths_witness :
  promises (next (msg 7 None) (firstThenClose 7 None init)) !! 0%nat =
    Some (Resolved (VMsg (msg 7 None))).
Proof.
  exact (proj1 (proj2 (proj2 success_paths) (firstThenClose 7 None init) (msg 7 None) 0%nat
                  eq_refl eq_refl)).
Defined.

(** * HttpModule (the http package's module class)

    [processListener] patches listeners of the events
    [httpWorkflow.onRequest], [onAuth] and [onController] whose parameters
    need the HTTP request; [processController] registers controllers that
    carry an http class decorator.  The reflection and DI collaborators are
    modelled by what these methods read from them (type annotations,
    provider registrations) and the calls they make are logged (most recent
    first). *)
Module HttpModule.

Local Open Scope nat_scope.

(** Names of the type annotations that [typeAnnotation.getType] looks up. *)
Inductive AnnotationName :=
| httpQueries | httpQuery | httpBody | httpRequestParser | httpPath | httpHeader
| inject
| otherAnnotation (n : nat).

Definition AnnotationName_eqb (a b : AnnotationName) : bool :=
  match a, b with
  | httpQueries, httpQueries | httpQuery, httpQuery | httpBody, httpBody
  | httpRequestParser, httpRequestParser | httpPath, httpPath
  | httpHeader, httpHeader | inject, inject => true
  | otherAnnotation n, otherAnnotation m => Nat.eqb n m
  | _, _ => false
  end.

(** A reflected parameter: the annotation names registered on its type. *)
Record ReflectionParameter := mkParam { annotations : list AnnotationName }.

(** [typeAnnotation.getType(parameter.type, name)] is truthy. *)
Definition getType (p : ReflectionParameter) (name : AnnotationName) : bool :=
  existsb (AnnotationName_eqb name) (annotations p).

Definition parameterRequiresRequest (parameter : ReflectionParameter) : bool :=
  getType parameter httpQueries || getType parameter httpQuery
  || getType parameter httpBody || getType parameter httpRequestParser
  || getType parameter httpPath || getType parameter httpHeader.

Inductive EventToken :=
| onRequest | onAuth | onController
| otherEvent (n : nat).

Definition EventToken_eqb (a b : EventToken) : bool :=
  match a, b with
  | onRequest, onRequest | onAuth, onAuth | onController, onController => true
  | otherEvent n, otherEvent m => Nat.eqb n m
  | _, _ => false
  end.

(** [patchEventsForHttpRequestAccess] *)
Definition patchEventsForHttpRequestAccess : list EventToken :=
  [onRequest; onAuth; onController].

(** An added listener: its event token and the parameters of its reflection
    (the event itself first). *)
Record AddedListener := mkListener {
  eventToken : EventToken;
  parameters : list ReflectionParameter
}.

(** Calls made on the module and on the type registry; a provider is
    identified by its unique symbol and the argument index it returns. *)
Inductive ModuleCall :=
| RegisterInject (index : nat) (symbol : nat)
| AddProvider (symbol : nat) (index : nat)
| AddExport (symbol : nat).

(** [nextSymbol] numbers the fresh [Symbol(...)] values. *)
Record ModuleState := mkModuleState {
  nextSymbol : nat;
  calls : list ModuleCall
}.

(** The second loop of [processListener], from parameter [index] on. *)
Fixpoint patchParams (params : list ReflectionParameter) (index : nat) (st : ModuleState)
  : ModuleState :=
  match params with
  | [] => st
  | parameter :: params =>
      if parameterRequiresRequest parameter then
        let unique := nextSymbol st in
        patchParams params (S index)
          (mkModuleState (S unique)
             (AddExport unique :: AddProvider unique index :: RegisterInject index unique
                :: calls st))
      else patchParams params (S index) st
  end.

(** [processListener(module, listener)]: None when it throws the
    "requires async HttpBody" error. *)
Definition processListener (listener : AddedListener) (st : ModuleState) : option ModuleState :=
  if negb (existsb (EventToken_eqb (eventToken listener)) patchEventsForHttpRequestAccess)
  then Some st
  else
    let params := tail (parameters listener) in
    let needsAsync := existsb (fun parameter => getType parameter httpBody) params in
    if needsAsync then None
    else Some (patchParams params 0 st).

(** The listener's provider factory: [config && parserCache.get(config)],
    else [buildRequestParser(httpConfig.parser, params, config)], cached
    under [config] when there is one.  A built parser is identified by the
    arguments it was built from. *)
Record Build := mkBuild {
  bparser : nat;
  bparams : list ReflectionParameter;
  bconfig : option nat
}.

Definition buildRequestParser (parser : nat) (params : list ReflectionParameter)
  (config : option nat) : Build := mkBuild parser params config.

Definition selectBuild (parser : nat) (listener : AddedListener) (parserCache : gmap nat Build)
  (config : option nat) : Build * gmap nat Build :=
  let cached := match config with Some c => parserCache !! c | None => None end in
  match cached with
  | Some build => (build, parserCache)
  | None =>
      let params := tail (parameters listener) in
      let build := buildRequestParser parser params config in
      (build, match config with Some c => <[c := build]> parserCache | None => parserCache end)
  end.

(** [processController(module, config)]: the module's providers (by
    controller) and the calls to [httpControllers.add], each most recent
    first;
    [hasHttpClass c] says whether [httpClass._fetch(c)] finds a decorator. *)
Record ControllerState := mkControllerState {
  moduleProviders : list nat;
  httpControllersAdded : list nat
}.

Definition processController (hasHttpClass : nat -> bool) (controller : option nat)
  (st : ControllerState) : ControllerState :=
  match controller with
  | None => st
  | Some c =>
      if negb (hasHttpClass c) then st
      else
        let providers :=
          if existsb (Nat.eqb c) (moduleProviders st) then moduleProviders st
          else c :: moduleProviders st in
        mkControllerState providers (c :: httpControllersAdded st)
  end.

(** Indexes (counted from [index]) of the parameters that need the request. *)
Fixpoint requestIndexes (params : list ReflectionParameter) (index : nat) : list nat :=
  match params with
  | [] => []
  | parameter :: params =>
      if parameterRequiresRequest parameter then index :: requestIndexes params (S index)
      else requestIndexes params (S index)
  end.

Definition providersOf (cs : list ModuleCall) : list (nat * nat) :=
  flat_map (fun c => match c with AddProvider s i => [(s, i)] | _ => [] end) cs.

Definition exportsOf (cs : list ModuleCall) : list nat :=
  flat_map (fun c => match c with AddExport s => [s] | _ => [] end) cs.

(** ** Properties *)

Lemma getType_httpBody_requires p :
  getType p httpBody = true -> parameterRequiresRequest p = true.
Proof. unfold parameterRequiresRequest. intros ->. now rewrite !orb_true_r. Qed.

(** processListener throws exactly for a listener of one of the three
    patched events one of whose parameters after the event carries
    [HttpBody]; listeners of other events are left alone whatever their
    parameters. *)
Theorem processListener_throws_iff listener st :
  processListener listener st = None <->
  In (eventToken listener) patchEventsForHttpRequestAccess /\
  exists p, In p (tail (parameters listener)) /\ getType p httpBody = true.
Proof.
  unfold processListener.
  assert (T : existsb (EventToken_eqb (eventToken listener)) patchEventsForHttpRequestAccess = true
              <-> In (eventToken listener) patchEventsForHttpRequestAccess).
  { destruct (eventToken listener) as [| | |n]; cbn; split; intros H; auto;
      try discriminate; try (rewrite Nat.eqb_refl in H; discriminate);
      repeat destruct H as [H|H]; try discriminate; contradiction. }
  destruct (existsb (EventToken_eqb (eventToken listener)) patchEventsForHttpRequestAccess);
    cbn.
  - rewrite <- existsb_exists. split.
    + intros H. destruct (existsb _ _); [|discriminate].
      split; [apply T|]; reflexivity.
    + intros [_ H]. now rewrite H.
  - split; [discriminate|]. intros [H _]. apply T in H. discriminate.
Qed.

Lemma patchParams_spec params index st :
  let k := requestIndexes params index in
  exists new, calls (patchParams params index st) = new ++ calls st /\
    rev (providersOf new) = combine (seq (nextSymbol st) (length k)) k /\
    rev (exportsOf new) = seq (nextSymbol st) (length k) /\
    nextSymbol (patchParams params index st) = nextSymbol st + length k.
Proof.
  revert index st. induction params as [|p params IH]; intros index st k.
  - exists []. subst k. cbn. rewrite Nat.add_0_r. repeat split; reflexivity.
  - subst k. cbn. destruct (parameterRequiresRequest p).
    + set (n := nextSymbol st).
      destruct (IH (S index) (mkModuleState (S n)
        (AddExport n :: AddProvider n index :: RegisterInject index n :: calls st)))
        as (new & C & P & E & N).
      exists (new ++ [AddExport n; AddProvider n index; RegisterInject index n]).
      cbn in C, P, E, N. rewrite C, <- app_assoc. split; [reflexivity|].
      unfold providersOf, exportsOf in *. rewrite !flat_map_app. cbn.
      rewrite !rev_app_distr. cbn. rewrite P, E.
      repeat split; try reflexivity; lia.
    + apply IH.
Qed.

(** When processListener succeeds on a patched event, it registers one
    provider per parameter after the event that needs the request, in
    parameter order, each under a fresh symbol and with the index of that
    parameter among the parameters after the event, and exports every such
    symbol; it makes no other provider or export. *)
Theorem processListener_providers listener st st' :
  processListener listener st = Some st' ->
  In (eventToken listener) patchEventsForHttpRequestAccess ->
  let k := requestIndexes (tail (parameters listener)) 0 in
  exists new, calls st' = new ++ calls st /\
    rev (providersOf new) = combine (seq (nextSymbol st) (length k)) k /\
    rev (exportsOf new) = seq (nextSymbol st) (length k) /\
    nextSymbol st' = nextSymbol st + length k.
Proof.
  intros H T k. unfold processListener in H.
  replace (existsb (EventToken_eqb (eventToken listener)) patchEventsForHttpRequestAccess)
    with true in H.
  2:{ symmetry. apply existsb_exists. exists (eventToken listener). split; [exact T|].
      destruct T as [<-|[<-|[<-|[]]]]; reflexivity. }
  cbn in H. destruct (existsb _ _); [discriminate|].
  injection H as <-. apply patchParams_spec.
Qed.

Definition bodyless_listener : AddedListener :=
  mkListener onRequest [mkParam [httpBody]; mkParam []; mkParam [httpQuery]; mkParam [httpHeader]].

Lemma processListener_providers_witness :
  exists new, calls (default (mkModuleState 0 []) (processListener bodyless_listener (mkModuleState 0 []))) =
    new ++ [] /\ rev (providersOf new) = [(0, 1); (1, 2)].
Proof.
  destruct (processListener_providers bodyless_listener (mkModuleState 0 [])
              (patchParams [mkParam []; mkParam [httpQuery]; mkParam [httpHeader]] 0 (mkModuleState 0 []))
              eq_refl (or_introl eq_refl)) as (new & C & P & _).
  exists new. split; [exact C | exact P].
Defined.

(** Every entry of the listener's parser cache was built for its own route
    config from the listener's parameters after the event. *)
Definition cache_ok (listener : AddedListener) (parserCache : gmap nat Build) : Prop :=
  forall c b, parserCache !! c = Some b ->
    bconfig b = Some c /\ bparams b = tail (parameters listener).

(** The provider factory always uses a parser built for the route config
    of the current request from the listener's parameters after the event,
    and keeps the cache consistent. *)
Theorem selectBuild_sound parser listener parserCache config :
  cache_ok listener parserCache ->
  cache_ok listener (snd (selectBuild parser listener parserCache config)) /\
  bconfig (fst (selectBuild parser listener parserCache config)) = config /\
  bparams (fst (selectBuild parser listener parserCache config)) = tail (parameters listener).
Proof.
  intros H. unfold selectBuild.
  destruct config as [c|]; cbn.
  - destruct (parserCache !! c) as [b|] eqn:E; cbn.
    + destruct (H c b E) as [B P]. split; [exact H|]. split; assumption.
    + split; [|split; reflexivity].
      intros c' b'. destruct (decide (c = c')) as [<-|Hne].
      * rewrite lookup_insert_eq. intros [= <-]. split; reflexivity.
      * rewrite lookup_insert_ne by exact Hne. apply H.
  - split; [exact H|]. split; reflexivity.
Qed.

Lemma selectBuild_sound_witness :
  bconfig (fst (selectBuild 0 bodyless_listener ∅ (Some 4))) = Some 4.
Proof.
  apply (selectBuild_sound 0 bodyless_listener ∅ (Some 4)).
  intros c b Hc. rewrite lookup_empty in Hc. discriminate.
Defined.

(** With a route config the parser is built once: a later request with the
    same config gets the cached parser and leaves the cache as it is, even
    when [httpConfig.parser] has changed meanwhile; without a route config
    a parser is built on every request and nothing is cached. *)
Theorem selectBuild_cached parser parser' listener parserCache c :
  let r := selectBuild parser listener parserCache (Some c) in
  selectBuild parser' listener (snd r) (Some c) = r /\
  selectBuild parser listener parserCache None =
    (buildRequestParser parser (tail (parameters listener)) None, parserCache).
Proof.
  unfold selectBuild. cbv beta iota zeta. split; [|reflexivity].
  destruct (parserCache !! c) as [b|] eqn:E; cbn [fst snd].
  - now rewrite E.
  - now rewrite lookup_insert_eq.
Qed.

(** processController registers a controller that carries an http class:
    a controller the module does not provide yet is added to its providers,
    which keep all their earlier entries; one it already provides leaves
    them unchanged, so it is a provider at most once however often it is
    processed.  It is handed to [httpControllers.add] on every call.
    Without a controller or without an http class nothing happens. *)
Theorem processController_registers hasHttpClass c st :
  NoDup (moduleProviders st) ->
  (hasHttpClass c = true ->
     let st' := processController hasHttpClass (Some c) st in
     (In c (moduleProviders st) -> moduleProviders st' = moduleProviders st) /\
     (~ In c (moduleProviders st) -> moduleProviders st' = c :: moduleProviders st) /\
     NoDup (moduleProviders st') /\
     httpControllersAdded st' = c :: httpControllersAdded st) /\
  (hasHttpClass c = false -> processController hasHttpClass (Some c) st = st) /\
  processController hasHttpClass None st = st.
Proof.
  intros N. split; [|split].
  - intros Hc. cbn. rewrite Hc. cbn.
    assert (B : existsb (Nat.eqb c) (moduleProviders st) = true <-> In c (moduleProviders st)).
    { rewrite existsb_exists. split.
      - intros (x & Hx & Ex). apply Nat.eqb_eq in Ex. now subst x.
      - intros Hin. exists c. split; [exact Hin | apply Nat.eqb_refl]. }
    destruct (existsb (Nat.eqb c) (moduleProviders st)) eqn:E; cbn.
    + split; [reflexivity|]. split; [intros Hn; exfalso; apply Hn, B; reflexivity|].
      split; [exact N | reflexivity].
    + split; [intros Hin; apply B in Hin; discriminate|]. split; [reflexivity|].
      split; [|reflexivity].
      constructor; [|exact N]. intros Hin. apply list_elem_of_In, B in Hin. discriminate.
  - intros Hc. cbn. now rewrite Hc.
  - reflexivity.
Qed.

Lemma processController_registers_witness :
  moduleProviders (processController (fun _ => true) (Some 3) (mkControllerState [5] [])) = [3; 5] /\
  moduleProviders (processController (fun _ => true) (Some 3) (mkControllerState [3] [])) = [3].
Proof.
  split.
  - apply (proj1 (proj2 (proj1 (processController_registers (fun _ => true) 3
                                 (mkControllerState [5] []) (NoDup_singleton 5)) eq_refl))).
    cbn. intros [H|[]]. discriminate.
  - apply (proj1 (proj1 (processController_registers (fun _ => true) 3 (mkControllerState [3] [])
                          (NoDup_singleton 3)) eq_refl)).
    left. reflexivity.
Defined.

End HttpModule.
